(** * Thesis-Builder: the content-to-markup conversion of [assembler.py]

    A shallow embedding of [create_latex_text], [process_plain_text] and
    [process_content_block], together with the fragment of Python's [str]
    and [re] behaviour these functions rely on.

    A Python [str] is a sequence of Unicode code points; it is modelled as a
    list of code points of type [N]. *)

From Stdlib Require Import String Ascii.
From Stdlib Require Import List NArith Arith Bool Lia.
From Stdlib Require Import Sorting.Sorted.
Import ListNotations.

Set Implicit Arguments.

(** ** Python strings *)

Definition char := N.
Definition pystr := list char.

(** An ASCII literal as a Python string. *)
Definition py (x : string) : pystr := map N_of_ascii (list_ascii_of_string x).

Definition nl : char := 10%N.          (* "\n" *)
Definition hash : char := 35%N.        (* "#" *)
Definition dollar : char := 36%N.      (* "$" *)
Definition backslash : char := 92%N.   (* "\\" *)
Definition lbrace : char := 123%N.     (* "{" *)
Definition rbrace : char := 125%N.     (* "}" *)

Module PyStr.

Fixpoint eqb (a b : pystr) : bool :=
  match a, b with
  | [], [] => true
  | x :: a', y :: b' => N.eqb x y && eqb a' b'
  | _, _ => false
  end.

(** [t.startswith(p)] *)
Fixpoint startswith (p t : pystr) : bool :=
  match p, t with
  | [], _ => true
  | x :: p', y :: t' => N.eqb x y && startswith p' t'
  | _ :: _, [] => false
  end.

(** [t[a:b]] for [0 <= a] and [0 <= b]; Python clips both bounds. *)
Definition slice (t : pystr) (a b : nat) : pystr := firstn (b - a) (skipn a t).

(** [old in t], the substring test. *)
Fixpoint contains (old t : pystr) : bool :=
  startswith old t ||
  match t with
  | [] => false
  | _ :: t' => contains old t'
  end.

(** [t.replace(old, new)] for a non-empty [old]: the occurrences of [old]
    are found left to right and do not overlap.  [skip] counts the
    characters of the occurrence just replaced that are still to be passed
    over. *)
Fixpoint replace_from (old new : pystr) (skip : nat) (t : pystr) : pystr :=
  match t with
  | [] => []
  | x :: t' =>
      match skip with
      | S k => replace_from old new k t'
      | O => if startswith old t
             then new ++ replace_from old new (length old - 1) t'
             else x :: replace_from old new 0 t'
      end
  end.

(** [t.replace(old, new)].  With an empty [old] Python puts [new] before
    every character and at the end. *)
Definition replace (old new t : pystr) : pystr :=
  match old with
  | [] => new ++ flat_map (fun x => x :: new) t
  | _ :: _ => replace_from old new 0 t
  end.

(** [str.isspace] on one code point (the whitespace table of CPython's
    Unicode database); it is also what [\s] matches in [re] on [str]. *)
Definition isspace (c : char) : bool :=
  ((9 <=? c) && (c <=? 13) || (28 <=? c) && (c <=? 32)
   || (c =? 133) || (c =? 160) || (c =? 5760)
   || (8192 <=? c) && (c <=? 8202)
   || (c =? 8232) || (c =? 8233) || (c =? 8239) || (c =? 8287)
   || (c =? 12288))%N.

Fixpoint lstrip (t : pystr) : pystr :=
  match t with
  | x :: t' => if isspace x then lstrip t' else t
  | [] => []
  end.

Definition rstrip (t : pystr) : pystr := rev (lstrip (rev t)).

(** [t.strip()] *)
Definition strip (t : pystr) : pystr := rstrip (lstrip t).

(** [t.split(sep)] for a one-character separator: the result is never
    empty, and [cur] is the piece being read. *)
Fixpoint split_from (sep : char) (cur : pystr) (t : pystr) : list pystr :=
  match t with
  | [] => [cur]
  | x :: t' => if N.eqb x sep then cur :: split_from sep [] t'
               else split_from sep (cur ++ [x]) t'
  end.

Definition split (sep : char) (t : pystr) : list pystr := split_from sep [] t.

(** [sep.join(parts)] *)
Fixpoint join (sep : pystr) (parts : list pystr) : pystr :=
  match parts with
  | [] => []
  | [p] => p
  | p :: rest => p ++ sep ++ join sep rest
  end.

End PyStr.

(** ** The fragment of [re] used by the program

    Every pattern of [assembler.py] is a sequence of anchors and of
    quantified single-character sets, and every capture group wraps exactly
    one such item.  The matcher below is a backtracking matcher for that
    fragment with the priorities of [re]: a greedy quantifier tries the
    longest repetition first, a lazy one the shortest. *)

Module Re.

Inductive charset : Type :=
| Ch (c : char)              (* a literal character *)
| NotCh (c : char)           (* [^c], which also matches a newline *)
| Dot                        (* . without DOTALL: anything but a newline *)
| OneOf (cs : list char)     (* [abc] *)
| Class (f : char -> bool).  (* \d, \w or \s *)

Definition in_charset (cs : charset) (x : char) : bool :=
  match cs with
  | Ch c => N.eqb x c
  | NotCh c => negb (N.eqb x c)
  | Dot => negb (N.eqb x nl)
  | OneOf l => existsb (N.eqb x) l
  | Class f => f x
  end.

Inductive quant : Type :=
| Once        (* no quantifier *)
| Plus        (* + *)
| PlusLazy    (* +? *)
| Star.       (* * *)

(** [Bol] and [Eol] are [^] and [$] under [re.MULTILINE]. *)
Inductive node : Type :=
| Bol
| Eol
| Atom (group : option nat) (q : quant) (cs : charset).

Definition pattern := list node.

(** The literal text [x] as a pattern. *)
Definition lit (x : string) : pattern := map (fun c => Atom None Once (Ch c)) (py x).

Definition groups := list (nat * pystr).

(** Number of characters consumed, and the captured groups. *)
Definition result := (nat * groups)%type.

Definition shift (r : option result) : option result :=
  match r with
  | Some (n, gs) => Some (S n, gs)
  | None => None
  end.

Definition capture (g : option nat) (s : pystr) (r : option result) : option result :=
  match g, r with
  | Some i, Some (n, gs) => Some (n, (i, s) :: gs)
  | _, _ => r
  end.

Definition at_bol (prev : option char) : bool :=
  match prev with
  | None => true
  | Some c => N.eqb c nl
  end.

Definition at_eol (t : pystr) : bool :=
  match t with
  | [] => true
  | x :: _ => N.eqb x nl
  end.

Section Repeat.
Variable cs : charset.
(** What follows the repetition: it receives the characters the
    repetition consumed, the character before the position, and the
    remaining text. *)
Variable k : pystr -> option char -> pystr -> option result.

Fixpoint plus_greedy (acc : pystr) (t : pystr) : option result :=
  match t with
  | x :: t' =>
      if in_charset cs x then
        match plus_greedy (acc ++ [x]) t' with
        | Some r => shift (Some r)
        | None => shift (k (acc ++ [x]) (Some x) t')
        end
      else None
  | [] => None
  end.

Fixpoint plus_lazy (acc : pystr) (t : pystr) : option result :=
  match t with
  | x :: t' =>
      if in_charset cs x then
        match k (acc ++ [x]) (Some x) t' with
        | Some r => shift (Some r)
        | None => shift (plus_lazy (acc ++ [x]) t')
        end
      else None
  | [] => None
  end.

Definition star_greedy (prev : option char) (t : pystr) : option result :=
  match plus_greedy [] t with
  | Some r => Some r
  | None => k [] prev t
  end.

Definition once (t : pystr) : option result :=
  match t with
  | x :: t' => if in_charset cs x then shift (k [x] (Some x) t') else None
  | [] => None
  end.
End Repeat.

(** [match_here p prev t]: the match of [p] at the start of [t], where
    [prev] is the character just before that position. *)
Fixpoint match_here (p : pattern) (prev : option char) (t : pystr) : option result :=
  match p with
  | [] => Some (0, [])
  | Bol :: p' => if at_bol prev then match_here p' prev t else None
  | Eol :: p' => if at_eol t then match_here p' prev t else None
  | Atom g q cs :: p' =>
      let k := fun s prev' t' => capture g s (match_here p' prev' t') in
      match q with
      | Once => once cs k t
      | Plus => plus_greedy cs k [] t
      | PlusLazy => plus_lazy cs k [] t
      | Star => star_greedy cs k prev t
      end
  end.

(** A match object: [m.start()], [m.end()], [m.group()] and the groups. *)
Record mobj : Type := MObj {
  start : nat;
  end_ : nat;
  group : pystr;
  captures : groups
}.

(** [re.finditer(p, text)]: the matches from left to right, each search
    resuming where the previous match ended.  No pattern of the program
    matches the empty string (see [match_here_nonempty]); a zero-length
    result is not reported. *)
Fixpoint finditer_from (p : pattern) (prev : option char) (pos skip : nat)
         (t : pystr) : list mobj :=
  match t with
  | [] => []
  | x :: t' =>
      match skip with
      | S k => finditer_from p (Some x) (S pos) k t'
      | O =>
          match match_here p prev t with
          | Some (S n, gs) =>
              MObj pos (pos + S n) (firstn (S n) t) gs
                :: finditer_from p (Some x) (S pos) n t'
          | _ => finditer_from p (Some x) (S pos) 0 t'
          end
      end
  end.

Definition finditer (p : pattern) (text : pystr) : list mobj :=
  finditer_from p None 0 0 text.

(** A replacement template: literal text and group references [\1]. *)
Inductive piece : Type :=
| Lit (s : pystr)
| Group (i : nat).

Definition template := list piece.

Fixpoint group_of (gs : groups) (i : nat) : pystr :=
  match gs with
  | [] => []
  | (j, s) :: gs' => if Nat.eqb i j then s else group_of gs' i
  end.

Definition expand (repl : template) (gs : groups) : pystr :=
  flat_map (fun pc => match pc with Lit s => s | Group i => group_of gs i end) repl.

(** [re.sub(p, repl, text)] *)
Fixpoint sub_from (p : pattern) (repl : template) (prev : option char)
         (skip : nat) (t : pystr) : pystr :=
  match t with
  | [] => []
  | x :: t' =>
      match skip with
      | S k => sub_from p repl (Some x) k t'
      | O =>
          match match_here p prev t with
          | Some (S n, gs) => expand repl gs ++ sub_from p repl (Some x) n t'
          | _ => x :: sub_from p repl (Some x) 0 t'
          end
      end
  end.

Definition sub (p : pattern) (repl : template) (text : pystr) : pystr :=
  sub_from p repl None 0 text.

(** *** The language of a pattern

    [pat_lang p s]: the text [s] is matched by [p] with the anchors left
    aside; it says what a match looks like, not which match has priority. *)

Definition quant_ok (q : quant) (n : nat) : Prop :=
  match q with
  | Once => n = 1
  | Plus | PlusLazy => 1 <= n
  | Star => True
  end.

Fixpoint pat_lang (p : pattern) (s : pystr) : Prop :=
  match p with
  | [] => s = []
  | Bol :: p' | Eol :: p' => pat_lang p' s
  | Atom _ q cs :: p' =>
      exists a b, s = a ++ b
                  /\ Forall (fun x => in_charset cs x = true) a
                  /\ quant_ok q (length a)
                  /\ pat_lang p' b
  end.

(** A pattern with an item that needs a character. *)
Definition needs_char (nd : node) : bool :=
  match nd with
  | Atom _ (Once | Plus | PlusLazy) _ => true
  | _ => false
  end.

End Re.

(** ** Data model *)

(** The tags ['text'], ['ref'] and ['math'] of segments and matches. *)
Inductive seg_type : Type := text_ | ref | math.

Definition is_text (k : seg_type) : bool :=
  match k with text_ => true | _ => false end.

(** [content_block['data']]: the fields the renderers read, each absent
    ([None]) or present; the page schema fixes their types. *)
Record block_data : Type := Data {
  text : option pystr;
  textPath : option pystr;
  imagePath : option pystr;
  caption : option pystr;
  label : option pystr;
  tableData : option (list (list pystr));
  code : option pystr;
  language : option pystr;
  equation : option pystr
}.

Record content_block : Type := Block {
  type : pystr;
  data : block_data
}.

(** Records of the [logging] module, in the order they are emitted. *)
Inductive level : Type := INFO | WARNING | ERROR.
Definition log_record := (level * pystr)%type.

(** The outcome of opening and reading a file with a given encoding. *)
Inductive read_result : Type :=
| ReadOk (contents : pystr)
| UnicodeDecodeError (e : pystr)
| OtherError (e : pystr).

(** An environment to run examples in: no code point above ASCII is a
    digit or a letter, paths are joined with a slash, and the only file is
    [pages/1/list.txt]. *)
Module Sample.

Definition no_unicode (c : char) : bool := false.

Definition isabs (path : pystr) : bool := PyStr.startswith (py "/") path.

Definition join (dir path : pystr) : pystr := dir ++ py "/" ++ path.

Definition relpath (path start : pystr) : pystr := py "../../" ++ path.

Definition list_txt : pystr :=
  py "- a" ++ [nl] ++ py "- b" ++ [nl] ++ py "not a list".

Definition read_file (path : pystr) (encoding : string) : read_result :=
  if PyStr.eqb path (py "pages/1/list.txt") then ReadOk list_txt
  else OtherError (py "[Errno 2] No such file or directory").

End Sample.

(** ** [assembler.py] *)

Section Assembler.

(** The Unicode character database of the Python runtime, for the code
    points above ASCII: [str.isdecimal] (what [\d] matches) and
    [str.isalnum] (what [\w] matches, besides the underscore). *)
Variable unicode_isdecimal : char -> bool.
Variable unicode_isalnum : char -> bool.

Definition is_digit (c : char) : bool :=
  if (c <? 128)%N then (48 <=? c)%N && (c <=? 57)%N else unicode_isdecimal c.

Definition is_word (c : char) : bool :=
  if (c <? 128)%N
  then (48 <=? c)%N && (c <=? 57)%N || (65 <=? c)%N && (c <=? 90)%N
       || (97 <=? c)%N && (c <=? 122)%N || (c =? 95)%N
  else unicode_isalnum c.

(** *** [process_plain_text] *)

(** The dictionaries are iterated in insertion order. *)
Definition replacements : list (pystr * pystr) :=
  [ (py "&", py "\&");
    (py "%", py "\%");
    (py "#", py "\#");
    (py "_", py "\_");
    (py "{", py "\{");
    (py "}", py "\}");
    (py "~", py "\textasciitilde{}");
    (py "^", py "\textasciicircum{}");
    (py "\", py "\textbackslash{}");
    (py "$", py "\$") ].

Definition polish_chars : list (pystr * pystr) :=
  [ ([261%N], py "\k{a}");   (* a with ogonek *)
    ([263%N], py "\'c");     (* c with acute *)
    ([281%N], py "\k{e}");   (* e with ogonek *)
    ([322%N], py "\l{}");    (* l with stroke *)
    ([324%N], py "\'n");     (* n with acute *)
    ([243%N], py "\'o");     (* o with acute *)
    ([347%N], py "\'s");     (* s with acute *)
    ([378%N], py "\'z");     (* z with acute *)
    ([380%N], py "\.z");     (* z with dot above *)
    ([260%N], py "\k{A}");
    ([262%N], py "\'C");
    ([280%N], py "\k{E}");
    ([321%N], py "\L{}");
    ([323%N], py "\'N");
    ([211%N], py "\'O");
    ([346%N], py "\'S");
    ([377%N], py "\'Z");
    ([379%N], py "\.Z") ].

Definition special_chars : list (pystr * pystr) :=
  [ ([956%N], py "$\mu$");        (* Greek small letter mu *)
    ([177%N], py "$\pm$");        (* plus-minus sign *)
    ([176%N], py "$^{\circ}$");   (* degree sign *)
    ([8776%N], py "$\approx$");   (* almost equal to *)
    ([8805%N], py "$\geq$");
    ([8804%N], py "$\leq$");
    ([8315%N], py "$^{-}$");      (* superscript minus *)
    ([185%N], py "$^{1}$");
    ([178%N], py "$^{2}$");
    ([179%N], py "$^{3}$");
    ([8308%N], py "$^{4}$");
    ([8309%N], py "$^{5}$");
    ([8310%N], py "$^{6}$");
    ([8311%N], py "$^{7}$");
    ([8312%N], py "$^{8}$");
    ([8313%N], py "$^{9}$");
    ([8304%N], py "$^{0}$");
    ([8321%N], py "$_{1}$");
    ([8322%N], py "$_{2}$");
    ([8323%N], py "$_{3}$");
    ([8324%N], py "$_{4}$") ].

(** [for char, replacement in table.items(): text = text.replace(char, replacement)] *)
Definition replace_all (table : list (pystr * pystr)) (text : pystr) : pystr :=
  fold_left (fun t cr => PyStr.replace (fst cr) (snd cr) t) table text.

Import Re.

(** [\[(\w+)\]] and [\\cite{\1}] *)
Definition pattern_cite : pattern :=
  lit "[" ++ [Atom (Some 1) Plus (Class is_word)] ++ lit "]".
Definition repl_cite : template := [Lit (py "\cite{"); Group 1; Lit (py "}")].

(** [^# (.+)$] with [re.MULTILINE], for a prefix of one to four hashes. *)
Definition pattern_heading (prefix : string) : pattern :=
  [Bol] ++ lit prefix ++ [Atom (Some 1) Plus Dot; Eol].
Definition repl_command (cmd : string) : template :=
  [Lit (py cmd ++ [lbrace]); Group 1; Lit [rbrace]].

(** [\*\*(.+?)\*\*] and [\*(.+?)\*] *)
Definition pattern_bold : pattern :=
  lit "**" ++ [Atom (Some 1) PlusLazy Dot] ++ lit "**".
Definition pattern_italic : pattern :=
  lit "*" ++ [Atom (Some 1) PlusLazy Dot] ++ lit "*".

(** [(\d+)%] and [\1\\%] *)
Definition pattern_percent : pattern :=
  [Atom (Some 1) Plus (Class is_digit)] ++ lit "%".
Definition repl_percent : template := [Group 1; Lit (py "\%")].

(** [(\d+)\s*([µμ])[mM]]: the set holds the micro sign U+00B5 and the
    Greek mu U+03BC; [unit] is ["mM"] or ["Aa"]. *)
Definition pattern_micro (unit : string) : pattern :=
  [ Atom (Some 1) Plus (Class is_digit);
    Atom None Star (Class PyStr.isspace);
    Atom (Some 2) Once (OneOf [181%N; 956%N]);
    Atom None Once (OneOf (py unit)) ].
Definition repl_micro (unit : string) : template :=
  [Group 1; Lit (py " $\mu$" ++ py unit)].

Definition process_plain_text (text : pystr) : pystr :=
  (* Replace special LaTeX characters *)
  let text := replace_all replacements text in
  (* Process Polish characters *)
  let text := replace_all polish_chars text in
  (* Process special scientific characters *)
  let text := replace_all special_chars text in
  (* Process citations *)
  let text := sub pattern_cite repl_cite text in
  (* Process Markdown-like formatting *)
  let text := sub (pattern_heading "# ") (repl_command "\chapter") text in
  let text := sub (pattern_heading "## ") (repl_command "\section") text in
  let text := sub (pattern_heading "### ") (repl_command "\subsection") text in
  let text := sub (pattern_heading "#### ") (repl_command "\subsubsection") text in
  let text := sub pattern_bold (repl_command "\textbf") text in
  let text := sub pattern_italic (repl_command "\textit") text in
  (* Handle special numeric patterns *)
  let text := sub pattern_percent repl_percent text in
  let text := PyStr.replace (py "~70%") (py "\textasciitilde{}70\%") text in
  let text := sub (pattern_micro "mM") (repl_micro "m") text in
  let text := sub (pattern_micro "Aa") (repl_micro "A") text in
  text.

(** *** [create_latex_text] *)

(** [\\ref\{[^}]+\}] *)
Definition pattern_ref : pattern :=
  lit "\ref{" ++ [Atom None Plus (NotCh rbrace)] ++ lit "}".

(** [\$[^$]+?\$] *)
Definition pattern_math : pattern :=
  lit "$" ++ [Atom None PlusLazy (NotCh dollar)] ++ lit "$".

(** An entry of [all_matches]: [(type, start, end, content)]. *)
Definition tagged := (seg_type * nat * nat * pystr)%type.
Definition t_type (m : tagged) : seg_type := fst (fst (fst m)).
Definition t_start (m : tagged) : nat := snd (fst (fst m)).
Definition t_end (m : tagged) : nat := snd (fst m).
Definition t_content (m : tagged) : pystr := snd m.

Definition tag (k : seg_type) (m : mobj) : tagged :=
  (k, start m, end_ m, group m).

(** [list.sort(key=lambda x: x[1])] is stable: an element goes before the
    elements after it that have the same key. *)
Fixpoint insert_by_start (m : tagged) (l : list tagged) : list tagged :=
  match l with
  | [] => [m]
  | y :: l' => if t_start m <=? t_start y then m :: l
               else y :: insert_by_start m l'
  end.

Fixpoint sort_by_start (l : list tagged) : list tagged :=
  match l with
  | [] => []
  | m :: l' => insert_by_start m (sort_by_start l')
  end.

Definition ref_matches (text : pystr) : list mobj := finditer pattern_ref text.
Definition math_matches (text : pystr) : list mobj := finditer pattern_math text.

Definition all_matches (text : pystr) : list tagged :=
  sort_by_start (map (tag ref) (ref_matches text) ++ map (tag math) (math_matches text)).

Definition segment := (seg_type * pystr)%type.

(** One iteration of the loop of step 2, on the state
    [(segments, last_end)]. *)
Definition add_match (text : pystr) (st : list segment * nat) (m : tagged)
  : list segment * nat :=
  let '(segments, last_end) := st in
  let segments :=
    if last_end <? t_start m
    then segments ++ [(text_, PyStr.slice text last_end (t_start m))]
    else segments in
  (segments ++ [(t_type m, t_content m)], t_end m).

(** Steps 1 and 2: the segmentation of [text]. *)
Definition build_segments (text : pystr) : list segment :=
  let '(segments, last_end) := fold_left (add_match text) (all_matches text) ([], 0) in
  if last_end <? length text
  then segments ++ [(text_, skipn last_end text)]
  else segments.

(** Step 3: plain segments are escaped, the others are kept. *)
Definition process_segment (sg : segment) : pystr :=
  if is_text (fst sg) then process_plain_text (snd sg) else snd sg.

Definition create_latex_text (text : pystr) : pystr :=
  let processed_segments := map process_segment (build_segments text) in
  (* Step 4: join all processed segments *)
  let result := concat processed_segments in
  (* Step 5: line breaks *)
  PyStr.replace [nl; nl] ([nl] ++ py "\par" ++ [nl]) result.

(** *** Content blocks *)

(** [data.get(key, default)] *)
Definition get {A : Type} (field : option A) (default : A) : A :=
  match field with
  | Some v => v
  | None => default
  end.

(** Truth value of a string or list: non-empty. *)
Definition truthy {A : Type} (l : list A) : bool :=
  match l with
  | [] => false
  | _ :: _ => true
  end.

(** The operating system, as the program sees it: [os.path] and the
    outcome of opening and reading a file with a given encoding. *)
Variable isabs : pystr -> bool.
Variable join : pystr -> pystr -> pystr.
Variable relpath : pystr -> pystr -> pystr.
Variable read_file : pystr -> string -> read_result.

Definition load_external_text (text_path page_dir : pystr) : pystr * list log_record :=
  let text_path := if negb (isabs text_path) then join page_dir text_path else text_path in
  match read_file text_path "utf-8" with
  | ReadOk contents => (contents, [])
  | UnicodeDecodeError _ =>
      match read_file text_path "iso-8859-2" with
      | ReadOk contents => (contents, [])
      | UnicodeDecodeError e | OtherError e =>
          ([], [(ERROR, py "Error loading external text file " ++ text_path
                        ++ py " with ISO-8859-2 encoding: " ++ e)])
      end
  | OtherError e =>
      ([], [(ERROR, py "Error loading external text file " ++ text_path ++ py ": " ++ e)])
  end.

(** The optional [\caption{...}] and [\label{...}] lines. *)
Definition caption_line (d : block_data) : pystr :=
  let caption := get (caption d) [] in
  if truthy caption
  then py "\caption{" ++ create_latex_text caption ++ py "}" ++ [nl]
  else [].

Definition label_line (d : block_data) : pystr :=
  let label := get (label d) [] in
  if truthy label then py "\label{" ++ label ++ py "}" ++ [nl] else [].

Definition process_image (content_block : content_block) (page_dir : pystr) : pystr :=
  let data := data content_block in
  let image_path := get (imagePath data) [] in
  let image_path := if negb (isabs image_path) then join page_dir image_path else image_path in
  let relative_path := relpath image_path (py "build/tex") in
  py "\begin{figure}[htbp]" ++ [nl] ++ py "\centering" ++ [nl]
  ++ py "\includegraphics[width=0.8\textwidth]{" ++ relative_path ++ py "}" ++ [nl]
  ++ caption_line data
  ++ label_line data
  ++ py "\end{figure}" ++ [nl].

Definition process_table (content_block : content_block) : pystr :=
  let data := data content_block in
  let table_data := get (tableData data) [] in
  match table_data with
  | [] => []
  | first_row :: _ =>
      let num_cols := length first_row in
      py "\begin{table}[htbp]" ++ [nl] ++ py "\centering" ++ [nl]
      ++ py "\begin{tabular}{" ++ PyStr.join (py "|") (repeat (py "c") num_cols)
      ++ py "}" ++ [nl] ++ py "\hline" ++ [nl]
      ++ flat_map (fun row => PyStr.join (py " & ") (map create_latex_text row)
                              ++ py " \\ \hline" ++ [nl]) table_data
      ++ py "\end{tabular}" ++ [nl]
      ++ caption_line data
      ++ label_line data
      ++ py "\end{table}" ++ [nl]
  end.

Definition process_code (content_block : content_block) : pystr :=
  let data := data content_block in
  let code := get (code data) [] in
  let language := get (language data) (py "text") in
  py "\begin{listing}[H]" ++ [nl]
  ++ py "\begin{minted}[breaklines, linenos]{" ++ language ++ py "}" ++ [nl]
  ++ code ++ [nl]
  ++ py "\end{minted}" ++ [nl]
  ++ caption_line data
  ++ label_line data
  ++ py "\end{listing}" ++ [nl].

Definition process_equation (content_block : content_block) : pystr :=
  let data := data content_block in
  let equation := get (equation data) [] in
  py "\begin{equation}" ++ [nl]
  ++ label_line data
  ++ equation ++ [nl]
  ++ py "\end{equation}" ++ [nl].

(** The loop that counts the leading hashes. *)
Fixpoint heading_level (text : pystr) : nat :=
  match text with
  | c :: rest => if N.eqb c hash then S (heading_level rest) else 0
  | [] => 0
  end.

(** The command chosen by the [if heading_level == 1 ... else] chain. *)
Definition heading_command (heading_level : nat) : pystr :=
  match heading_level with
  | 1 => py "\chapter"
  | 2 => py "\section"
  | 3 => py "\subsection"
  | 4 => py "\subsubsection"
  | _ => py "\paragraph"
  end.

(** A heading made of [text], whose leading hashes give the level. *)
Definition heading (text : pystr) : pystr :=
  let heading_level := heading_level text in
  let text_content := PyStr.strip (skipn heading_level text) in
  heading_command heading_level ++ py "{" ++ create_latex_text text_content ++ py "}".

(** The first loop of the [textPath] branch, on one line. *)
Definition process_line (line : pystr) : pystr :=
  if PyStr.startswith (py "#") (PyStr.strip line)
  then heading (PyStr.strip line)
  else line.

Definition is_list_item (line : pystr) : bool :=
  PyStr.startswith (py "- ") (PyStr.strip line).

Definition item_line (line : pystr) : pystr :=
  py "\item " ++ skipn 2 (PyStr.strip line).

(** The list pass: [list_lines] is the outer [while], at a line outside
    a list; [list_items] is the inner [while], which consumes the
    following list lines, closes the environment and hands the first
    other line back to the outer loop. *)
Fixpoint list_lines (lines : list pystr) : list pystr :=
  match lines with
  | [] => []
  | current_line :: rest =>
      if is_list_item current_line
      then py "\begin{itemize}" :: item_line current_line :: list_items rest
      else current_line :: list_lines rest
  end
with list_items (lines : list pystr) : list pystr :=
  match lines with
  | [] => [py "\end{itemize}"]
  | line :: rest =>
      if is_list_item line
      then item_line line :: list_items rest
      else py "\end{itemize}" :: line :: list_lines rest
  end.

Definition process_content_block (content_block : content_block) (page_dir : pystr)
  : pystr * list log_record :=
  let block_type := type content_block in
  if PyStr.eqb block_type (py "text") then
    match text (data content_block), textPath (data content_block) with
    | Some text, _ =>
        if PyStr.startswith (py "#") text
        then (heading text ++ [nl; nl], [])
        else (create_latex_text text ++ [nl; nl], [])
    | None, Some text_path =>
        let '(external_text, log) := load_external_text text_path page_dir in
        let lines := PyStr.split nl external_text in
        let processed_lines := map process_line lines in
        let processed_text := PyStr.join [nl] processed_lines in
        let result := create_latex_text processed_text in
        let lines := PyStr.split nl result in
        let final_result := list_lines lines in
        (PyStr.join [nl] final_result, log)
    | None, None =>
        ([], [(WARNING, py "Text block is missing both 'text' and 'textPath'")])
    end
  else if PyStr.eqb block_type (py "image") then
    (process_image content_block page_dir ++ [nl], [])
  else if PyStr.eqb block_type (py "table") then
    (process_table content_block ++ [nl], [])
  else if PyStr.eqb block_type (py "code") then
    (process_code content_block ++ [nl], [])
  else if PyStr.eqb block_type (py "equation") then
    (process_equation content_block ++ [nl], [])
  else if PyStr.eqb block_type (py "listing") then
    (process_code content_block ++ [nl], [])
  else
    ([], [(WARNING, py "Unknown content block type: " ++ block_type)]).

(** The loop of [process_page] over [page_data['content']]: each
    fragment is written to the page in turn.  The renderers above raise no
    exception, so the [except] branch of the loop is never taken. *)
Definition write_blocks (content : list content_block) (page_dir : pystr)
  : pystr * list log_record :=
  fold_left
    (fun (st : pystr * list log_record) content_block =>
       let '(latex_content, log) := process_content_block content_block page_dir in
       (fst st ++ latex_content, snd st ++ log))
    content ([], []).

(** ** Vocabulary of the properties *)

(** The scan of step 5 for double newlines. *)
Definition par_breaks (new : pystr) : pystr -> pystr :=
  PyStr.replace_from [nl; nl] new 0.

(** Two spans that share no position. *)
Definition disjoint (a b : tagged) : Prop :=
  t_end a <= t_start b \/ t_end b <= t_start a.

(** A match is well formed in [text]: it is not empty and its content is
    the text between its offsets. *)
Definition well_formed (text : pystr) (m : tagged) : Prop :=
  t_start m < t_end m /\ t_content m = PyStr.slice text (t_start m) (t_end m).

(** The matches lie one after the other, from offset [pos] on. *)
Fixpoint chain_from (pos : nat) (l : list tagged) : Prop :=
  match l with
  | [] => True
  | m :: l' => pos <= t_start m /\ t_start m < t_end m /\ chain_from (t_end m) l'
  end.

(** The order of [all_matches] after the sort. *)
Definition by_start (a b : tagged) : Prop := t_start a < t_start b.

Definition starts_differ (a b : tagged) : Prop := t_start a <> t_start b.

(** No reference match shares a position with a math match. *)
Definition spans_disjoint (text : pystr) : bool :=
  forallb (fun r =>
    forallb (fun m => (end_ r <=? start m) || (end_ m <=? start r))
            (math_matches text))
    (ref_matches text).

(** The segment a match turns into. *)
Definition protected_segment (m : tagged) : segment := (t_type m, t_content m).

Definition is_protected (sg : segment) : bool := negb (is_text (fst sg)).

(** The overlap policy as the specification words it: a match that starts
    inside the span of a match processed before it adds no segment. *)
Definition drops_overlapping (text : pystr) : Prop :=
  forall a b, In a (all_matches text) -> In b (all_matches text) ->
    t_start a <= t_start b < t_end a -> a <> b ->
    ~ In (protected_segment b) (build_segments text).

(** A block that cannot be rendered: a text block with neither [text]
    nor [textPath], or a block of an unknown kind. *)
Definition known_kinds : list pystr :=
  [py "text"; py "image"; py "table"; py "code"; py "equation"; py "listing"].

Definition unknown_kind (b : content_block) : bool :=
  negb (existsb (PyStr.eqb (type b)) known_kinds).

Definition missing_text (b : content_block) : bool :=
  PyStr.eqb (type b) (py "text")
  && match text (data b), textPath (data b) with
     | None, None => true
     | _, _ => false
     end.

(** The lines start outside a list: there is no line, or the first one
    is not a list line. *)
Definition starts_outside (lines : list pystr) : Prop :=
  match lines with
  | [] => True
  | line :: _ => is_list_item line = false
  end.

(** A text block with the given inline text and nothing else. *)
Definition inline_block (t : pystr) : content_block :=
  Block (py "text") (Data (Some t) None None None None None None None None).

(** A text block that refers to an external file. *)
Definition external_block (path : pystr) : content_block :=
  Block (py "text") (Data None (Some path) None None None None None None None).

(** ** Facts about strings *)

Lemma eqb_refl (a : pystr) : PyStr.eqb a a = true.
Proof.
  induction a as [|x a IH]; simpl; [reflexivity|].
  now rewrite N.eqb_refl, IH.
Qed.

Lemma eqb_eq (a b : pystr) : PyStr.eqb a b = true -> a = b.
Proof.
  revert b; induction a as [|x a IH]; intros [|y b]; simpl; try discriminate; auto.
  intros H; apply andb_true_iff in H as [Hx Hab].
  apply N.eqb_eq in Hx; subst; f_equal; auto.
Qed.

Lemma startswith_app (p rest : pystr) : PyStr.startswith p (p ++ rest) = true.
Proof.
  induction p as [|x p IH]; simpl; [reflexivity|].
  now rewrite N.eqb_refl, IH.
Qed.

Lemma contains_unfold (old t : pystr) :
  PyStr.contains old t
  = PyStr.startswith old t || match t with [] => false | _ :: t' => PyStr.contains old t' end.
Proof. destruct t; reflexivity. Qed.

Lemma contains_middle (a p b : pystr) : PyStr.contains p (a ++ p ++ b) = true.
Proof.
  induction a as [|x a IH].
  - simpl app. rewrite contains_unfold, startswith_app. reflexivity.
  - simpl app. rewrite contains_unfold, IH. apply orb_true_r.
Qed.

Lemma firstn_slice (t : pystr) (a b : nat) :
  a <= b -> firstn a t ++ PyStr.slice t a b = firstn b t.
Proof.
  intros Hab; unfold PyStr.slice.
  rewrite <- (firstn_skipn a (firstn b t)) at 1.
  rewrite firstn_firstn, Nat.min_l by exact Hab.
  now rewrite skipn_firstn_comm.
Qed.

Lemma starts_nn (t : pystr) :
  PyStr.startswith [nl; nl] t
  = match t with
    | a :: b :: _ => N.eqb a nl && N.eqb b nl
    | _ => false
    end.
Proof.
  destruct t as [|a [|b t]]; cbn [PyStr.startswith];
    rewrite ?(N.eqb_sym nl), ?andb_true_r, ?andb_false_r; reflexivity.
Qed.

Lemma par_breaks_cons (new : pystr) (x : char) (t : pystr) :
  PyStr.startswith [nl; nl] (x :: t) = false ->
  par_breaks new (x :: t) = x :: par_breaks new t.
Proof.
  intros H. unfold par_breaks.
  change (PyStr.replace_from [nl; nl] new 0 (x :: t))
    with (if PyStr.startswith [nl; nl] (x :: t)
          then new ++ PyStr.replace_from [nl; nl] new 1 t
          else x :: PyStr.replace_from [nl; nl] new 0 t).
  now rewrite H.
Qed.

Lemma par_breaks_hit (new : pystr) (t : pystr) :
  par_breaks new (nl :: nl :: t) = new ++ par_breaks new t.
Proof. reflexivity. Qed.

(** The pass works on both sides of a position that is followed by a
    character other than a newline. *)
Lemma par_breaks_app (new a : pystr) (x : char) (b : pystr) :
  x <> nl ->
  par_breaks new (a ++ x :: b) = par_breaks new a ++ par_breaks new (x :: b).
Proof.
  intros Hx. apply N.eqb_neq in Hx.
  assert (H : forall n a, length a <= n ->
            par_breaks new (a ++ x :: b) = par_breaks new a ++ par_breaks new (x :: b)).
  { induction n as [|n IH]; intros [|y a'] Hlen; simpl in Hlen; try lia; try reflexivity.
    destruct a' as [|z a''].
    - simpl app.
      rewrite (par_breaks_cons new y (x :: b)), (par_breaks_cons new y []).
      + reflexivity.
      + now rewrite starts_nn.
      + now rewrite starts_nn, Hx, andb_false_r.
    - simpl app. destruct (N.eqb y nl && N.eqb z nl) eqn:E.
      + apply andb_true_iff in E as [Hy Hz].
        apply N.eqb_eq in Hy, Hz. subst y z.
        rewrite !par_breaks_hit, <- app_assoc. f_equal.
        apply IH. simpl in Hlen. lia.
      + rewrite (par_breaks_cons new y (z :: a'' ++ x :: b)),
                (par_breaks_cons new y (z :: a'')) by now rewrite starts_nn.
        simpl app. f_equal. apply (IH (z :: a'')). simpl in *. lia. }
  apply (H (length a)); lia.
Qed.

(** A stretch with no double newline that does not end in a newline
    passes unchanged. *)
Lemma par_breaks_keep (new p : pystr) (y : char) (b : pystr) :
  y <> nl ->
  PyStr.contains [nl; nl] (p ++ [y]) = false ->
  par_breaks new ((p ++ [y]) ++ b) = (p ++ [y]) ++ par_breaks new b.
Proof.
  intros Hy. apply N.eqb_neq in Hy.
  induction p as [|x p IH]; intros Hc.
  - simpl app. rewrite par_breaks_cons; [reflexivity|].
    rewrite starts_nn. destruct b; [reflexivity|]. now rewrite Hy.
  - simpl app in *. rewrite contains_unfold in Hc.
    apply orb_false_iff in Hc as [Hc1 Hc2].
    rewrite par_breaks_cons.
    + f_equal. apply IH. exact Hc2.
    + rewrite starts_nn in *.
      destruct p as [|z p']; simpl app in *.
      * cbn iota. now rewrite Hy, andb_false_r.
      * exact Hc1.
Qed.

(** ** Facts about the matcher *)

Lemma shift_some (r : option result) (n : nat) (gs : groups) :
  shift r = Some (n, gs) -> exists n', n = S n' /\ r = Some (n', gs).
Proof.
  destruct r as [[n' gs']|]; simpl; [|discriminate].
  intros H; injection H as <- <-; eauto.
Qed.

Lemma capture_some (g : option nat) (s : pystr) (r : option result) (n : nat) (gs : groups) :
  capture g s r = Some (n, gs) -> exists gs', r = Some (n, gs').
Proof.
  destruct g as [i|], r as [[n' gs']|]; simpl; try discriminate.
  - intros H; injection H as <- <-; eauto.
  - intros H; injection H as <- <-; eauto.
Qed.

Section RepeatFacts.
Variable cs : charset.
Variable k : pystr -> option char -> pystr -> option result.
Variable Q : pystr -> Prop.
Hypothesis Hk : forall s prev t n gs, k s prev t = Some (n, gs) -> Q (firstn n t).

Let member (x : char) : Prop := in_charset cs x = true.

Lemma once_sound (t : pystr) (n : nat) (gs : groups) :
  once cs k t = Some (n, gs) ->
  exists a b, firstn n t = a ++ b /\ Forall member a /\ length a = 1 /\ Q b.
Proof.
  destruct t as [|x t]; cbn [plus_greedy plus_lazy once]; [discriminate|].
  destruct (in_charset cs x) eqn:Hx; [|discriminate].
  intros H. apply shift_some in H as (n' & -> & H).
  exists [x], (firstn n' t). repeat split; eauto.
Qed.

Lemma plus_greedy_sound (t acc : pystr) (n : nat) (gs : groups) :
  plus_greedy cs k acc t = Some (n, gs) ->
  exists a b, firstn n t = a ++ b /\ Forall member a /\ 1 <= length a /\ Q b.
Proof.
  revert acc n gs; induction t as [|x t IH]; intros acc n gs; cbn [plus_greedy plus_lazy once]; [discriminate|].
  destruct (in_charset cs x) eqn:Hx; [|discriminate].
  destruct (plus_greedy cs k (acc ++ [x]) t) as [[n1 gs1]|] eqn:E; intros H.
  - apply shift_some in H as (n' & -> & H). injection H as <- <-.
    destruct (IH _ _ _ E) as (a & b & Hab & Ha & _ & Hb).
    exists (x :: a), b. simpl. rewrite Hab. repeat split; auto. lia.
  - apply shift_some in H as (n' & -> & H).
    exists [x], (firstn n' t). repeat split; eauto.
Qed.

Lemma plus_lazy_sound (t acc : pystr) (n : nat) (gs : groups) :
  plus_lazy cs k acc t = Some (n, gs) ->
  exists a b, firstn n t = a ++ b /\ Forall member a /\ 1 <= length a /\ Q b.
Proof.
  revert acc n gs; induction t as [|x t IH]; intros acc n gs; cbn [plus_greedy plus_lazy once]; [discriminate|].
  destruct (in_charset cs x) eqn:Hx; [|discriminate].
  destruct (k (acc ++ [x]) (Some x) t) as [[n1 gs1]|] eqn:E; intros H.
  - apply shift_some in H as (n' & -> & H). injection H as <- <-.
    exists [x], (firstn n1 t). repeat split; eauto.
  - apply shift_some in H as (n' & -> & H).
    destruct (IH _ _ _ H) as (a & b & Hab & Ha & _ & Hb).
    exists (x :: a), b. simpl. rewrite Hab. repeat split; auto. lia.
Qed.

Lemma star_greedy_sound (prev : option char) (t : pystr) (n : nat) (gs : groups) :
  star_greedy cs k prev t = Some (n, gs) ->
  exists a b, firstn n t = a ++ b /\ Forall member a /\ Q b.
Proof.
  unfold star_greedy.
  destruct (plus_greedy cs k [] t) as [[n1 gs1]|] eqn:E; intros H.
  - injection H as <- <-.
    destruct (plus_greedy_sound _ _ E) as (a & b & Hab & Ha & _ & Hb). eauto.
  - exists [], (firstn n t). repeat split; eauto.
Qed.

Lemma plus_greedy_pos (t acc : pystr) (n : nat) (gs : groups) :
  plus_greedy cs k acc t = Some (n, gs) -> 0 < n.
Proof.
  destruct t as [|x t]; cbn [plus_greedy plus_lazy once]; [discriminate|].
  destruct (in_charset cs x); [|discriminate].
  destruct (plus_greedy cs k (acc ++ [x]) t);
    intros H; apply shift_some in H as (n' & -> & _); lia.
Qed.

Lemma plus_lazy_pos (t acc : pystr) (n : nat) (gs : groups) :
  plus_lazy cs k acc t = Some (n, gs) -> 0 < n.
Proof.
  destruct t as [|x t]; cbn [plus_greedy plus_lazy once]; [discriminate|].
  destruct (in_charset cs x); [|discriminate].
  destruct (k (acc ++ [x]) (Some x) t);
    intros H; apply shift_some in H as (n' & -> & _); lia.
Qed.

Lemma once_pos (t : pystr) (n : nat) (gs : groups) :
  once cs k t = Some (n, gs) -> 0 < n.
Proof.
  destruct t as [|x t]; cbn [plus_greedy plus_lazy once]; [discriminate|].
  destruct (in_charset cs x); [|discriminate].
  intros H; apply shift_some in H as (n' & -> & _); lia.
Qed.
End RepeatFacts.

(** The matcher only returns texts of the pattern's language. *)
Lemma match_here_sound (p : pattern) :
  forall prev t n gs, match_here p prev t = Some (n, gs) -> pat_lang p (firstn n t).
Proof.
  induction p as [|nd p IH]; intros prev t n gs H.
  - simpl in H. injection H as <- <-. reflexivity.
  - assert (Hk : forall g s prev' t' n' gs',
               capture g s (match_here p prev' t') = Some (n', gs') ->
               pat_lang p (firstn n' t')).
    { intros g s prev' t' n' gs' Hc.
      apply capture_some in Hc as (gs1 & Hc). eauto. }
    destruct nd as [| |g q cs]; simpl in H.
    + destruct (at_bol prev); [eauto|discriminate].
    + destruct (at_eol t); [eauto|discriminate].
    + cbn [pat_lang]. destruct q.
      * apply once_sound with (Q := pat_lang p) in H; [|now apply Hk].
        destruct H as (a & b & ? & ? & ? & ?). exists a, b. auto.
      * apply plus_greedy_sound with (Q := pat_lang p) in H; [|now apply Hk].
        destruct H as (a & b & ? & ? & ? & ?). exists a, b. auto.
      * apply plus_lazy_sound with (Q := pat_lang p) in H; [|now apply Hk].
        destruct H as (a & b & ? & ? & ? & ?). exists a, b. auto.
      * apply star_greedy_sound with (Q := pat_lang p) in H; [|now apply Hk].
        destruct H as (a & b & ? & ? & ?). exists a, b. simpl. auto.
Qed.

(** A pattern with an item that needs a character never matches the
    empty string; this covers every pattern of the program. *)
Lemma match_here_nonempty (p : pattern) :
  existsb needs_char p = true ->
  forall prev t n gs, match_here p prev t = Some (n, gs) -> 0 < n.
Proof.
  induction p as [|nd p IH]; simpl; [discriminate|].
  intros Hp prev t n gs H.
  destruct nd as [| |g q cs]; simpl in Hp, H.
  - destruct (at_bol prev); [eauto|discriminate].
  - destruct (at_eol t); [eauto|discriminate].
  - destruct q; simpl in Hp.
    + eapply once_pos; eauto.
    + eapply plus_greedy_pos; eauto.
    + eapply plus_lazy_pos; eauto.
    + unfold star_greedy in H.
      destruct (plus_greedy _ _ [] t) as [[n1 gs1]|] eqn:E.
      * injection H as <- <-. eapply plus_greedy_pos; eauto.
      * apply capture_some in H as (gs1 & H). eauto.
Qed.

(** ** Facts about the segmentation *)

Lemma chain_from_le (l : list tagged) (p q : nat) :
  q <= p -> chain_from p l -> chain_from q l.
Proof. destruct l as [|m l]; simpl; [auto|]. intros Hq (H1 & H2 & H3). repeat split; auto; lia. Qed.

Lemma chain_from_starts (l : list tagged) :
  forall p, chain_from p l -> Forall (fun m => p <= t_start m) l.
Proof.
  induction l as [|m l IH]; intros p; simpl; [constructor|].
  intros (H1 & H2 & H3). constructor; [exact H1|].
  apply IH. eapply chain_from_le; [|exact H3]. lia.
Qed.

(** What [finditer] returns: well-formed matches, one after the other. *)
Lemma finditer_from_spec (k : seg_type) (p : pattern) (t : pystr) :
  forall pre prev skip,
    let ms := map (tag k) (finditer_from p prev (length pre) skip t) in
    Forall (well_formed (pre ++ t)) ms
    /\ chain_from (length pre + skip) ms
    /\ Forall (fun m => pat_lang p (t_content m) /\ t_type m = k) ms.
Proof.
  induction t as [|x t IH]; intros pre prev skip; cbn zeta.
  - simpl. auto.
  - assert (Hstep : forall skip',
              let ms := map (tag k) (finditer_from p (Some x) (S (length pre)) skip' t) in
              Forall (well_formed (pre ++ x :: t)) ms
              /\ chain_from (S (length pre) + skip') ms
              /\ Forall (fun m => pat_lang p (t_content m) /\ t_type m = k) ms).
    { intros skip'. specialize (IH (pre ++ [x]) (Some x) skip').
      rewrite <- app_assoc, length_app in IH. simpl in IH.
      replace (length pre + 1) with (S (length pre)) in IH by lia. exact IH. }
    cbn [finditer_from]. destruct skip as [|skip].
    + destruct (match_here p prev (x :: t)) as [[[|n] gs]|] eqn:E.
      * destruct (Hstep 0) as (H1 & H2 & H3). repeat split; auto.
        eapply chain_from_le; [|exact H2]. lia.
      * destruct (Hstep n) as (H1 & H2 & H3). cbn [map]. split; [|split].
        -- constructor; [|exact H1]. split; cbn; [lia|].
           unfold PyStr.slice.
           replace (length pre + S n - length pre) with (S n) by lia.
           now rewrite skipn_app, skipn_all, Nat.sub_diag.
        -- cbn [chain_from]. split; [|split]; cbn; try lia.
           eapply chain_from_le; [|exact H2]. lia.
        -- constructor; [|exact H3]. split; [|reflexivity].
           cbn. apply (match_here_sound _ _ _ E).
      * destruct (Hstep 0) as (H1 & H2 & H3). repeat split; auto.
        eapply chain_from_le; [|exact H2]. lia.
    + destruct (Hstep skip) as (H1 & H2 & H3). repeat split; auto.
      eapply chain_from_le; [|exact H2]. lia.
Qed.

Lemma finditer_spec (k : seg_type) (p : pattern) (text : pystr) :
  let ms := map (tag k) (finditer p text) in
  Forall (well_formed text) ms
  /\ chain_from 0 ms
  /\ Forall (fun m => pat_lang p (t_content m) /\ t_type m = k) ms.
Proof. exact (finditer_from_spec k p text [] None 0). Qed.

(** The stable sort by start offset. *)

Lemma insert_by_start_Forall (P : tagged -> Prop) (m : tagged) (l : list tagged) :
  P m -> Forall P l -> Forall P (insert_by_start m l).
Proof.
  intros Hm; induction 1 as [|y l Hy Hl IH]; simpl.
  - constructor; auto.
  - destruct (t_start m <=? t_start y); repeat constructor; auto.
Qed.

Lemma sort_by_start_Forall (P : tagged -> Prop) (l : list tagged) :
  Forall P l -> Forall P (sort_by_start l).
Proof.
  induction 1 as [|m l Hm Hl IH]; simpl; [constructor|].
  now apply insert_by_start_Forall.
Qed.

Lemma insert_by_start_In (x m : tagged) (l : list tagged) :
  In x (insert_by_start m l) <-> x = m \/ In x l.
Proof.
  induction l as [|y l IH]; simpl.
  - intuition congruence.
  - destruct (t_start m <=? t_start y); simpl; rewrite ?IH; intuition congruence.
Qed.

Lemma sort_by_start_In (x : tagged) (l : list tagged) :
  In x (sort_by_start l) <-> In x l.
Proof.
  induction l as [|m l IH]; simpl; [tauto|].
  rewrite insert_by_start_In, IH. intuition congruence.
Qed.

Lemma insert_by_start_Sorted (m : tagged) (l : list tagged) :
  Forall (starts_differ m) l ->
  Sorted by_start l -> Sorted by_start (insert_by_start m l).
Proof.
  unfold starts_differ, by_start.
  intros Hd Hs; induction Hs as [|y l Hl IH Hy]; simpl.
  - repeat constructor.
  - inversion Hd as [|? ? Hmy Hd']; subst.
    destruct (t_start m <=? t_start y) eqn:E.
    + apply Nat.leb_le in E. repeat constructor; auto. lia.
    + apply Nat.leb_gt in E. constructor; [now apply IH|].
      destruct l as [|z l]; simpl.
      * constructor. lia.
      * destruct (t_start m <=? t_start z); constructor.
        -- lia.
        -- now inversion Hy.
Qed.

Lemma sort_by_start_Sorted (l : list tagged) :
  ForallOrdPairs starts_differ l -> Sorted by_start (sort_by_start l).
Proof.
  induction 1 as [|m l Hm Hl IH]; simpl; [constructor|].
  apply insert_by_start_Sorted; [|exact IH].
  now apply sort_by_start_Forall.
Qed.

(** Inserting a span that shares no position with the spans of a chain
    gives a chain again. *)
Lemma insert_by_start_chain (m : tagged) (l : list tagged) :
  t_start m < t_end m ->
  forall p, p <= t_start m -> chain_from p l -> Forall (disjoint m) l ->
            chain_from p (insert_by_start m l).
Proof.
  intros Hm; induction l as [|y l IH]; intros p Hp Hc Hd; simpl.
  - auto.
  - destruct Hc as (Hy1 & Hy2 & Hc). inversion Hd as [|? ? Hmy Hd']; subst.
    destruct (t_start m <=? t_start y) eqn:E.
    + apply Nat.leb_le in E. cbn [chain_from]. repeat split; auto.
      destruct Hmy as [H|H]; lia.
    + apply Nat.leb_gt in E. cbn [chain_from]. repeat split; auto.
      apply IH; auto. destruct Hmy as [H|H]; lia.
Qed.

Lemma sort_by_start_chain (l : list tagged) :
  Forall (fun m => t_start m < t_end m) l ->
  ForallOrdPairs disjoint l ->
  chain_from 0 (sort_by_start l).
Proof.
  induction l as [|m l IH]; intros Hne Hd; simpl; [exact I|].
  inversion Hne; inversion Hd; subst.
  apply insert_by_start_chain; auto; [lia|].
  now apply sort_by_start_Forall.
Qed.

Lemma chain_from_pairwise (l : list tagged) :
  forall p, chain_from p l -> ForallOrdPairs disjoint l.
Proof.
  induction l as [|m l IH]; intros p Hc; [constructor|].
  destruct Hc as (H1 & H2 & H3). constructor; [|eauto].
  apply chain_from_starts in H3.
  eapply Forall_impl; [|exact H3]. intros y Hy. now left.
Qed.

Lemma pairwise_app (R : tagged -> tagged -> Prop) (a b : list tagged) :
  ForallOrdPairs R a -> ForallOrdPairs R b ->
  (forall x y, In x a -> In y b -> R x y) ->
  ForallOrdPairs R (a ++ b).
Proof.
  induction 1 as [|x a Hx Ha IH]; intros Hb Hab; simpl; [exact Hb|].
  constructor.
  - apply Forall_app; split; [exact Hx|].
    apply Forall_forall. intros y Hy. apply Hab; simpl; auto.
  - apply IH; auto. intros; apply Hab; simpl; auto.
Qed.

Lemma all_matches_well_formed (text : pystr) :
  Forall (well_formed text) (all_matches text).
Proof.
  apply sort_by_start_Forall, Forall_app; split; apply finditer_spec.
Qed.

Lemma all_matches_protected (text : pystr) :
  Forall (fun m => is_text (t_type m) = false) (all_matches text).
Proof.
  apply sort_by_start_Forall, Forall_app; split.
  - eapply Forall_impl; [|apply (finditer_spec ref pattern_ref text)].
    cbn beta. intros m [_ ->]. reflexivity.
  - eapply Forall_impl; [|apply (finditer_spec math pattern_math text)].
    cbn beta. intros m [_ ->]. reflexivity.
Qed.

Lemma all_matches_chain (text : pystr) :
  spans_disjoint text = true -> chain_from 0 (all_matches text).
Proof.
  intros Hd. unfold all_matches.
  destruct (finditer_spec ref pattern_ref text) as (Hr1 & Hr2 & _).
  destruct (finditer_spec math pattern_math text) as (Hm1 & Hm2 & _).
  apply sort_by_start_chain.
  - apply Forall_app; split; (eapply Forall_impl; [|eassumption]); now intros m [H _].
  - apply pairwise_app; try (eapply chain_from_pairwise; eassumption).
    intros x y Hx Hy.
    apply in_map_iff in Hx as (r & <- & Hr), Hy as (m & <- & Hm).
    unfold spans_disjoint in Hd.
    rewrite forallb_forall in Hd. specialize (Hd r Hr).
    rewrite forallb_forall in Hd. specialize (Hd m Hm).
    apply orb_true_iff in Hd as [H|H]; apply Nat.leb_le in H; [left|right]; exact H.
Qed.

(** The loop of step 2 on a chain of matches keeps what it has built
    equal to the text read so far. *)
Lemma add_match_prefix (text : pystr) (ms : list tagged) :
  forall segments last_end,
    chain_from last_end ms ->
    Forall (well_formed text) ms ->
    concat (map snd segments) = firstn last_end text ->
    let st := fold_left (add_match text) ms (segments, last_end) in
    concat (map snd (fst st)) = firstn (snd st) text.
Proof.
  induction ms as [|m ms IH]; intros segments last_end Hc Hw Hs; cbn zeta.
  - exact Hs.
  - destruct Hc as (H1 & H2 & Hc). inversion Hw as [|? ? [_ Hm] Hw']; subst.
    cbn [fold_left add_match]. apply IH; [exact Hc|exact Hw'|].
    rewrite map_app, concat_app. cbn [map concat snd]. rewrite app_nil_r, Hm.
    rewrite <- (firstn_slice text (a := t_start m) (b := t_end m)) by lia. f_equal.
    destruct (last_end <? t_start m) eqn:E.
    + rewrite map_app, concat_app. cbn [map concat snd]. rewrite app_nil_r.
      rewrite <- (firstn_slice text (a := last_end) (b := t_start m)) by lia.
      f_equal. exact Hs.
    + apply Nat.ltb_ge in E. replace (t_start m) with last_end by lia. exact Hs.
Qed.

(** The loop of step 2 emits one protected segment for each match, in
    the order of the matches, whatever their offsets. *)
Lemma add_match_protected (text : pystr) (ms : list tagged) :
  forall segments last_end,
    Forall (fun m => is_text (t_type m) = false) ms ->
    filter is_protected (fst (fold_left (add_match text) ms (segments, last_end)))
    = filter is_protected segments ++ map protected_segment ms.
Proof.
  induction ms as [|m ms IH]; intros segments last_end Hp; cbn [fold_left map].
  - now rewrite app_nil_r.
  - inversion Hp as [|? ? Hm Hp']; subst.
    cbn [add_match]. rewrite IH by exact Hp'.
    rewrite filter_app. cbn [filter]. unfold is_protected at 2. cbn [fst]. rewrite Hm.
    cbn [negb]. rewrite <- app_assoc. f_equal.
    destruct (last_end <? t_start m); [|reflexivity].
    rewrite filter_app. cbn. now rewrite app_nil_r.
Qed.

Lemma build_segments_protected (text : pystr) :
  filter is_protected (build_segments text) = map protected_segment (all_matches text).
Proof.
  unfold build_segments.
  pose proof (@add_match_protected text (all_matches text) [] 0
                (all_matches_protected text)) as H.
  destruct (fold_left (add_match text) (all_matches text) ([], 0)) as [segments last_end].
  cbn [fst filter app] in H.
  destruct (last_end <? length text); [|exact H].
  rewrite filter_app. cbn. now rewrite app_nil_r.
Qed.

(** What a protected span looks like. *)

Lemma pat_lang_app (p1 p2 : pattern) :
  forall s, pat_lang (p1 ++ p2) s ->
            exists s1 s2, s = s1 ++ s2 /\ pat_lang p1 s1 /\ pat_lang p2 s2.
Proof.
  induction p1 as [|nd p1 IH]; intros s H.
  - exists [], s. simpl. auto.
  - destruct nd as [| |g q cs]; cbn [app pat_lang] in *.
    + apply IH in H. exact H.
    + apply IH in H. exact H.
    + destruct H as (a & b & -> & Ha & Hq & Hb).
      apply IH in Hb as (s1 & s2 & -> & H1 & H2).
      exists (a ++ s1), s2. rewrite app_assoc. repeat split; auto.
      exists a, s1. auto.
Qed.

Lemma pat_lang_ch (g : option nat) (c : char) (p : pattern) (s : pystr) :
  pat_lang (Atom g Once (Ch c) :: p) s -> exists s', s = c :: s' /\ pat_lang p s'.
Proof.
  cbn [pat_lang quant_ok]. intros (a & b & -> & Ha & Hl & Hb).
  destruct a as [|x [|y a]]; simpl in Hl; try discriminate.
  inversion Ha as [|? ? Hx _]; subst. cbn in Hx. apply N.eqb_eq in Hx. subst x.
  exists b. auto.
Qed.

Lemma protected_shape (s : pystr) :
  pat_lang pattern_ref s \/ pat_lang pattern_math s ->
  (exists x s', s = x :: s' /\ x <> nl) /\ (exists q y, s = q ++ [y] /\ y <> nl).
Proof.
  intros [H|H].
  - split.
    + apply pat_lang_ch in H as (s' & -> & _).
      exists backslash, s'. split; [reflexivity|discriminate].
    + unfold pattern_ref in H. rewrite app_assoc in H.
      apply pat_lang_app in H as (s1 & s2 & -> & _ & H2).
      apply pat_lang_ch in H2 as (s' & -> & H2). cbn in H2. subst s'.
      exists s1, rbrace. split; [reflexivity|discriminate].
  - split.
    + apply pat_lang_ch in H as (s' & -> & _).
      exists dollar, s'. split; [reflexivity|discriminate].
    + unfold pattern_math in H. rewrite app_assoc in H.
      apply pat_lang_app in H as (s1 & s2 & -> & _ & H2).
      apply pat_lang_ch in H2 as (s' & -> & H2). cbn in H2. subst s'.
      exists s1, dollar. split; [reflexivity|discriminate].
Qed.

Lemma all_matches_shape (text : pystr) :
  Forall (fun m => pat_lang pattern_ref (t_content m) \/ pat_lang pattern_math (t_content m))
         (all_matches text).
Proof.
  apply sort_by_start_Forall, Forall_app; split.
  - eapply Forall_impl; [|apply (finditer_spec ref pattern_ref text)].
    cbn beta. intros m [H _]. now left.
  - eapply Forall_impl; [|apply (finditer_spec math pattern_math text)].
    cbn beta. intros m [H _]. now right.
Qed.

Lemma chain_from_starts_differ (l : list tagged) :
  forall p, chain_from p l -> ForallOrdPairs starts_differ l.
Proof.
  induction l as [|m l IH]; intros p Hc; [constructor|].
  destruct Hc as (H1 & H2 & H3). constructor; [|eauto].
  apply chain_from_starts in H3.
  eapply Forall_impl; [|exact H3]. unfold starts_differ. intros y Hy. lia.
Qed.

Lemma slice_head (t : pystr) (a b : nat) (x : char) (r : pystr) :
  PyStr.slice t a b = x :: r -> hd_error (skipn a t) = Some x.
Proof.
  unfold PyStr.slice. destruct (skipn a t) as [|y l]; destruct (b - a); simpl;
    try discriminate.
  now intros [= -> _].
Qed.

(** A reference starts with a backslash and a math span with a dollar
    sign, so that no two matches start at the same offset. *)
Lemma ref_math_starts_differ (text : pystr) (r m : tagged) :
  In r (map (tag ref) (ref_matches text)) ->
  In m (map (tag math) (math_matches text)) ->
  starts_differ r m.
Proof.
  intros Hr Hm Heq.
  destruct (finditer_spec ref pattern_ref text) as (Hr1 & _ & Hr3).
  destruct (finditer_spec math pattern_math text) as (Hm1 & _ & Hm3).
  rewrite Forall_forall in Hr1, Hr3, Hm1, Hm3.
  destruct (Hr1 r Hr) as [_ Hrc]. destruct (Hr3 r Hr) as [Hrl _].
  destruct (Hm1 m Hm) as [_ Hmc]. destruct (Hm3 m Hm) as [Hml _].
  apply pat_lang_ch in Hrl as (sr & Hrl & _). apply pat_lang_ch in Hml as (sm & Hml & _).
  rewrite Hrl in Hrc. rewrite Hml in Hmc.
  symmetry in Hrc, Hmc. apply slice_head in Hrc, Hmc.
  rewrite Heq in Hrc. rewrite Hrc in Hmc. discriminate.
Qed.

Lemma all_matches_sorted (text : pystr) : Sorted by_start (all_matches text).
Proof.
  apply sort_by_start_Sorted.
  destruct (finditer_spec ref pattern_ref text) as (_ & Hr & _).
  destruct (finditer_spec math pattern_math text) as (_ & Hm & _).
  apply pairwise_app; try (eapply chain_from_starts_differ; eassumption).
  apply ref_math_starts_differ.
Qed.

(** Every pattern of the program needs a character to match. *)
Lemma program_patterns_nonempty :
  Forall (fun p => existsb needs_char p = true)
         [ pattern_ref; pattern_math; pattern_cite;
           pattern_heading "# "; pattern_heading "## "; pattern_heading "### ";
           pattern_heading "#### "; pattern_bold; pattern_italic; pattern_percent;
           pattern_micro "mM"; pattern_micro "Aa" ].
Proof. repeat constructor. Qed.

Lemma match_in_segments (text : pystr) (m : tagged) :
  In m (all_matches text) ->
  In (protected_segment m) (build_segments text) /\ is_text (t_type m) = false.
Proof.
  intros Hm. apply (in_map protected_segment) in Hm.
  rewrite <- build_segments_protected in Hm. apply filter_In in Hm as [H1 H2].
  split; [exact H1|]. unfold is_protected in H2. cbn in H2.
  now apply negb_true_iff in H2.
Qed.

(** ** Facts about the block renderer *)

Lemma starts_hash (t : pystr) :
  PyStr.startswith (py "#") t
  = match t with c :: _ => N.eqb c hash | [] => false end.
Proof.
  change (py "#") with [hash]. destruct t as [|c t]; cbn [PyStr.startswith]; [reflexivity|].
  now rewrite andb_true_r, N.eqb_sym.
Qed.

Lemma heading_level_hashes (k : nat) (rest : pystr) :
  PyStr.startswith (py "#") rest = false ->
  heading_level (repeat hash k ++ rest) = k.
Proof.
  intros Hr. rewrite starts_hash in Hr. induction k as [|k IH]; simpl.
  - destruct rest as [|c rest]; simpl; [reflexivity|]. now rewrite Hr.
  - now rewrite IH.
Qed.

Lemma skipn_hashes (k : nat) (rest : pystr) : skipn k (repeat hash k ++ rest) = rest.
Proof. induction k; simpl; auto. Qed.

Lemma text_block_heading (d : block_data) (t page_dir : pystr) :
  text d = Some t ->
  PyStr.startswith (py "#") t = true ->
  process_content_block (Block (py "text") d) page_dir = (heading t ++ [nl; nl], []).
Proof.
  intros Ht Hs. unfold process_content_block. cbn [type data].
  rewrite eqb_refl, Ht, Hs. reflexivity.
Qed.

Lemma text_block_plain (d : block_data) (t page_dir : pystr) :
  text d = Some t ->
  PyStr.startswith (py "#") t = false ->
  process_content_block (Block (py "text") d) page_dir
  = (create_latex_text t ++ [nl; nl], []).
Proof.
  intros Ht Hs. unfold process_content_block. cbn [type data].
  rewrite eqb_refl, Ht, Hs. reflexivity.
Qed.

Lemma list_items_region (items rest : list pystr) :
  Forall (fun line => is_list_item line = true) items ->
  starts_outside rest ->
  list_items (items ++ rest)
  = map item_line items ++ py "\end{itemize}" :: list_lines rest.
Proof.
  intros Hi Hr; induction Hi as [|line items Hl Hi IH]; simpl.
  - destruct rest as [|line rest]; simpl in *; [reflexivity|]. now rewrite Hr.
  - now rewrite Hl, IH.
Qed.

(** Two list lines followed by another line, anywhere in the input: the
    two items, the closing line and the other line follow one another in
    the output, after an opening line. *)
Lemma list_pass_in_context (la lb ln : pystr) (rest : list pystr) :
  is_list_item la = true -> is_list_item lb = true -> is_list_item ln = false ->
  forall pre,
    (exists out,
        In (py "\begin{itemize}") out
        /\ list_lines (pre ++ la :: lb :: ln :: rest)
           = out ++ item_line la :: item_line lb :: py "\end{itemize}" :: ln
                 :: list_lines rest)
    /\ (exists out,
           list_items (pre ++ la :: lb :: ln :: rest)
           = out ++ item_line la :: item_line lb :: py "\end{itemize}" :: ln
                 :: list_lines rest).
Proof.
  intros Ha Hb Hn. induction pre as [|l pre [(o1 & Hin & IH1) (o2 & IH2)]].
  - split.
    + exists [py "\begin{itemize}"]. split; [now left|].
      cbn [app list_lines list_items]. now rewrite Ha, Hb, Hn.
    + exists []. cbn [app list_lines list_items]. now rewrite Ha, Hb, Hn.
  - cbn [app list_lines list_items]. destruct (is_list_item l); split.
    + exists (py "\begin{itemize}" :: item_line l :: o2). split; [now left|].
      now rewrite IH2.
    + exists (item_line l :: o2). now rewrite IH2.
    + exists (l :: o1). split; [now right|]. now rewrite IH1.
    + exists (py "\end{itemize}" :: l :: o1). now rewrite IH1.
Qed.

Lemma write_blocks_fst (page_dir : pystr) (content : list content_block) :
  fst (write_blocks content page_dir)
  = flat_map (fun b => fst (process_content_block b page_dir)) content.
Proof.
  unfold write_blocks.
  assert (H : forall st,
    fst (fold_left
           (fun (st : pystr * list log_record) content_block =>
              let '(latex_content, log) := process_content_block content_block page_dir in
              (fst st ++ latex_content, snd st ++ log))
           content st)
    = fst st ++ flat_map (fun b => fst (process_content_block b page_dir)) content).
  { induction content as [|b content IH]; intros st; simpl.
    - now rewrite app_nil_r.
    - rewrite IH. destruct (process_content_block b page_dir) as [latex log].
      simpl. now rewrite app_assoc. }
  now rewrite H.
Qed.

Lemma unknown_kind_block (b : content_block) (page_dir : pystr) :
  unknown_kind b = true ->
  process_content_block b page_dir
  = ([], [(WARNING, py "Unknown content block type: " ++ type b)]).
Proof.
  unfold unknown_kind, known_kinds. intros H.
  apply negb_true_iff in H. cbn [existsb] in H.
  repeat (apply orb_false_iff in H as [?E H]).
  unfold process_content_block. now rewrite E, E0, E1, E2, E3, E4.
Qed.

Lemma missing_text_block (b : content_block) (page_dir : pystr) :
  missing_text b = true ->
  process_content_block b page_dir
  = ([], [(WARNING, py "Text block is missing both 'text' and 'textPath'")]).
Proof.
  unfold missing_text. intros H. apply andb_true_iff in H as [Ht Hd].
  unfold process_content_block. rewrite Ht.
  destruct (text (data b)); [discriminate|].
  destruct (textPath (data b)); [discriminate|]. reflexivity.
Qed.

(** ** The properties of the specification *)

(** C1. Segmenter round trip: when no reference match shares a position
    with a math match, the contents of the segments of step 2, put end to
    end in order, are the original text. *)
Theorem segmenter_round_trip (text : pystr) :
  spans_disjoint text = true ->
  concat (map snd (build_segments text)) = text.
Proof.
  intros Hd. unfold build_segments.
  pose proof (@add_match_prefix text (all_matches text) (@nil segment) 0
                (all_matches_chain text Hd) (all_matches_well_formed text) eq_refl) as H.
  cbn zeta in H.
  destruct (fold_left (add_match text) (all_matches text) ([], 0))
    as [segments last_end] eqn:Est.
  assert (H' : concat (map snd (fst (segments, last_end)))
               = firstn (snd (segments, last_end)) text)
    by (rewrite <- Est; exact H).
  clear H. rename H' into H. cbn [fst snd] in H.
  destruct (last_end <? length text) eqn:E.
  - rewrite map_app, concat_app.
    transitivity (firstn last_end text ++ skipn last_end text); [|apply firstn_skipn].
    f_equal; [exact H|]. cbn. apply app_nil_r.
  - apply Nat.ltb_ge in E.
    transitivity (firstn last_end text); [exact H|]. now apply firstn_all2.
Qed.

(** C2, as amended. Protected-content invariance: every reference or math
    match that holds no double newline occurs unchanged in the output of
    [create_latex_text]. *)
Theorem protected_content_kept (text : pystr) (m : tagged) :
  In m (all_matches text) ->
  PyStr.contains [nl; nl] (t_content m) = false ->
  PyStr.contains (t_content m) (create_latex_text text) = true.
Proof.
  intros Hm Hnn.
  destruct (match_in_segments text m Hm) as [Hseg Hty].
  pose proof (all_matches_shape text) as Hsh.
  rewrite Forall_forall in Hsh. specialize (Hsh m Hm).
  apply protected_shape in Hsh as [(x & s' & Hx & Hxn) (q & y & Hy & Hyn)].
  apply (in_map process_segment) in Hseg.
  unfold process_segment at 1 in Hseg. cbn [protected_segment fst snd] in Hseg.
  rewrite Hty in Hseg.
  apply in_split in Hseg as (l1 & l2 & Hl).
  unfold create_latex_text. rewrite Hl, concat_app. cbn [concat].
  change (PyStr.replace [nl; nl] ([nl] ++ py "\par" ++ [nl]))
    with (par_breaks ([nl] ++ py "\par" ++ [nl])).
  set (new := [nl] ++ py "\par" ++ [nl]).
  rewrite Hx at 2. cbn [app]. rewrite par_breaks_app by exact Hxn.
  change (x :: s' ++ concat l2) with ((x :: s') ++ concat l2).
  rewrite <- Hx. rewrite Hy at 2. rewrite Hy in Hnn.
  rewrite par_breaks_keep by assumption. rewrite <- Hy.
  apply contains_middle.
Qed.

(** C3. For ["&"] the result is not ["\&"] and for ["~"] it is not
    ["\textasciitilde{}"]: the backslash substitution, which comes ninth in
    [replacements], rewrites the backslash the earlier substitutions put
    in. *)
Theorem escaping_of_structural_characters :
  process_plain_text (py "&") = py "\textbackslash{}&"
  /\ process_plain_text (py "~") = py "\textbackslash{}textasciitilde{}"
  /\ replace_all replacements (py "&") = py "\textbackslash{}&".
Proof. repeat split; vm_compute; reflexivity. Qed.

(** C4. For ["70%"] the result is not ["70\%"] and for ["~70%"] it is not
    ["\textasciitilde{}70\%"]: the percent sign is escaped in the first
    step and the backslash of that escape is then rewritten, so neither
    the numeric rule nor the special case finds its pattern. *)
Theorem percent_rewriting :
  process_plain_text (py "70%") = py "70\textbackslash{}%"
  /\ process_plain_text (py "~70%")
     = py "\textbackslash{}textasciitilde{}70\textbackslash{}%".
Proof. split; vm_compute; reflexivity. Qed.

(** C5, as amended. Overlap policy: the matches are taken in the strict
    order of their start offsets, no two of them starting at the same
    offset, and each of them, also one that starts inside a span already
    consumed, adds its protected segment: the protected segments are the
    matches, in that order. *)
Theorem overlap_policy (text : pystr) :
  Sorted by_start (all_matches text)
  /\ filter is_protected (build_segments text)
     = map protected_segment (all_matches text).
Proof.
  split; [apply all_matches_sorted|apply build_segments_protected].
Qed.

(** C6. Inline heading conversion: ["# Title"] gives ["\chapter{Title}"]
    and two newlines, ["## Title"] gives ["\section{Title}"]; an inline text
    that starts with [k >= 1] hashes gives the command of level [k] around
    the formatted remainder, the levels 1 to 4 being chapter, section,
    subsection and subsubsection and the levels from 5 on paragraph. *)
Theorem inline_heading_conversion (page_dir : pystr) :
  process_content_block (inline_block (py "# Title")) page_dir
  = (py "\chapter{Title}" ++ [nl; nl], [])
  /\ process_content_block (inline_block (py "## Title")) page_dir
     = (py "\section{Title}" ++ [nl; nl], [])
  /\ (forall (d : block_data) (k : nat) (rest : pystr),
        1 <= k ->
        PyStr.startswith (py "#") rest = false ->
        text d = Some (repeat hash k ++ rest) ->
        process_content_block (Block (py "text") d) page_dir
        = (heading_command k ++ py "{" ++ create_latex_text (PyStr.strip rest)
           ++ py "}" ++ [nl; nl], []))
  /\ heading_command 1 = py "\chapter"
  /\ heading_command 2 = py "\section"
  /\ heading_command 3 = py "\subsection"
  /\ heading_command 4 = py "\subsubsection"
  /\ (forall k, 5 <= k -> heading_command k = py "\paragraph").
Proof.
  split; [vm_compute; reflexivity|].
  split; [vm_compute; reflexivity|].
  split.
  - intros d k rest Hk Hr Ht.
    rewrite (text_block_heading d page_dir Ht).
    + unfold heading. rewrite heading_level_hashes, skipn_hashes by exact Hr.
      now rewrite <- !app_assoc.
    + rewrite starts_hash. destruct k as [|k]; [lia|]. reflexivity.
  - repeat split.
    intros k Hk. do 5 (destruct k as [|k]; [lia|]). reflexivity.
Qed.

(** C7. List conversion on the external-text path: when the processed
    text of the file has the consecutive lines ["- a"], ["- b"],
    ["not a list"], the fragment has the lines of an opening of the
    itemize environment, then the two items, the closing and the last
    line, in that order; for a file with just these three lines it is
    exactly that.  In the list pass, a run of list lines followed by
    another line or by the end of the input becomes the opening line, one
    item per line and the closing line; any other line is kept; and no
    item line is an opening line, so a list region holds no other list
    region. *)
Theorem list_conversion (page_dir : pystr) :
  (forall path log external_text pre post,
      load_external_text path page_dir = (external_text, log) ->
      PyStr.split nl (create_latex_text
                        (PyStr.join [nl] (map process_line (PyStr.split nl external_text))))
      = pre ++ [py "- a"; py "- b"; py "not a list"] ++ post ->
      exists before,
        In (py "\begin{itemize}") before
        /\ process_content_block (external_block path) page_dir
           = (PyStr.join [nl]
                (before ++ [py "\item a"; py "\item b"; py "\end{itemize}"; py "not a list"]
                 ++ list_lines post), log))
  /\ (forall path log,
        load_external_text path page_dir = (Sample.list_txt, log) ->
        process_content_block (external_block path) page_dir
        = (py "\begin{itemize}" ++ [nl] ++ py "\item a" ++ [nl] ++ py "\item b" ++ [nl]
           ++ py "\end{itemize}" ++ [nl] ++ py "not a list", log))
  /\ (forall line items rest,
        Forall (fun l => is_list_item l = true) (line :: items) ->
        starts_outside rest ->
        list_lines ((line :: items) ++ rest)
        = py "\begin{itemize}" :: map item_line (line :: items)
          ++ py "\end{itemize}" :: list_lines rest)
  /\ (forall line rest,
        is_list_item line = false ->
        list_lines (line :: rest) = line :: list_lines rest)
  /\ (forall line, item_line line <> py "\begin{itemize}").
Proof.
  split; [|split; [|split; [|split]]].
  - intros path log external_text pre post Hload Hlines.
    destruct (@list_pass_in_context (py "- a") (py "- b") (py "not a list") post
                eq_refl eq_refl eq_refl pre) as [(out & Hin & Hout) _].
    exists out. split; [exact Hin|].
    unfold process_content_block, external_block.
    cbn [type data text textPath]. rewrite eqb_refl, Hload, Hlines.
    cbn [app]. rewrite Hout. reflexivity.
  - intros path log H. unfold process_content_block, external_block.
    cbn [type data text textPath]. rewrite eqb_refl, H.
    vm_compute. reflexivity.
  - intros line items rest Hi Hr. inversion Hi as [|? ? Hl Hi']; subst.
    cbn [app list_lines]. rewrite Hl. cbn [map app]. do 2 f_equal.
    now apply list_items_region.
  - intros line rest Hl. cbn [list_lines]. now rewrite Hl.
  - intros line H. unfold item_line in H. vm_compute in H. discriminate.
Qed.

(** C8. An inline text block is not given to the list pass: its lines
    ["- a"], ["- b"], ["not a list"] come out as they are, followed by two
    newlines, where the same text read from a file becomes an itemize
    environment. *)
Theorem inline_text_skips_list_pass (page_dir : pystr) :
  process_content_block (inline_block Sample.list_txt) page_dir
  = (Sample.list_txt ++ [nl; nl], []).
Proof. vm_compute. reflexivity. Qed.

(** C9. Non-fatal degradation: a text block with neither [text] nor
    [textPath], and a block of an unknown kind, are rendered as the empty
    fragment with one warning, and the page is written as if the block
    were not there. *)
Theorem non_fatal_degradation (b : content_block) (page_dir : pystr) :
  (missing_text b = true ->
   process_content_block b page_dir
   = ([], [(WARNING, py "Text block is missing both 'text' and 'textPath'")]))
  /\ (unknown_kind b = true ->
      process_content_block b page_dir
      = ([], [(WARNING, py "Unknown content block type: " ++ type b)]))
  /\ (missing_text b = true \/ unknown_kind b = true ->
      forall before after,
        fst (write_blocks (before ++ b :: after) page_dir)
        = fst (write_blocks (before ++ after) page_dir)).
Proof.
  split; [apply missing_text_block|]. split; [apply unknown_kind_block|].
  intros H before after. rewrite !write_blocks_fst, !flat_map_app. f_equal.
  cbn [flat_map].
  destruct H as [H|H];
    [rewrite (missing_text_block b page_dir H)|rewrite (unknown_kind_block b page_dir H)];
    reflexivity.
Qed.

(** C10. An inline text that starts with a hash is a heading as a whole:
    the fragment is one heading command whose argument is the formatted
    remainder of the text after the hashes, all its lines included, and
    nothing follows the command but two newlines. *)
Theorem inline_heading_takes_whole_text (d : block_data) (t page_dir : pystr) :
  text d = Some t ->
  PyStr.startswith (py "#") t = true ->
  process_content_block (Block (py "text") d) page_dir
  = (heading_command (heading_level t) ++ py "{"
     ++ create_latex_text (PyStr.strip (skipn (heading_level t) t))
     ++ py "}" ++ [nl; nl], []).
Proof.
  intros Ht Hs. rewrite (text_block_heading d page_dir Ht Hs).
  unfold heading. now rewrite <- !app_assoc.
Qed.

End Assembler.

(** ** The properties on concrete inputs *)

(** The example of the specification: a math span and a reference span,
    which do not overlap. *)
Lemma segmenter_round_trip_example :
  let text := py "The value $x^2$ satisfies \ref{eq:1}." in
  spans_disjoint text = true /\ concat (map snd (build_segments text)) = text.
Proof.
  split; [reflexivity|].
  apply (segmenter_round_trip (py "The value $x^2$ satisfies \ref{eq:1}.")).
  reflexivity.
Defined.

(** The example of the specification: both spans are in the output. *)
Lemma protected_content_kept_example :
  let text := py "The value $x^2$ satisfies \ref{eq:1}." in
  let out := create_latex_text Sample.no_unicode Sample.no_unicode text in
  PyStr.contains (py "$x^2$") out = true /\ PyStr.contains (py "\ref{eq:1}") out = true.
Proof.
  split.
  - apply (protected_content_kept Sample.no_unicode Sample.no_unicode
             (py "The value $x^2$ satisfies \ref{eq:1}.") (math, 10, 15, py "$x^2$")).
    + vm_compute. left. reflexivity.
    + reflexivity.
  - apply (protected_content_kept Sample.no_unicode Sample.no_unicode
             (py "The value $x^2$ satisfies \ref{eq:1}.") (ref, 26, 36, py "\ref{eq:1}")).
    + vm_compute. right. left. reflexivity.
    + reflexivity.
Defined.

(** A math span with a blank line inside is a match, and it is not in the
    output: step 5 puts a paragraph command in it. *)
Lemma paragraph_break_inside_math :
  let text := py "$a" ++ [nl; nl] ++ py "b$" in
  In (math, 0, 6, text) (all_matches text)
  /\ create_latex_text Sample.no_unicode Sample.no_unicode text
     = py "$a" ++ [nl] ++ py "\par" ++ [nl] ++ py "b$"
  /\ PyStr.contains text (create_latex_text Sample.no_unicode Sample.no_unicode text) = false.
Proof.
  split; [vm_compute; left; reflexivity|].
  split; vm_compute; reflexivity.
Qed.

(** A reference match that starts inside a math match is not dropped. *)
Lemma overlapping_match_not_dropped : ~ drops_overlapping (py "$a\ref{b$c}").
Proof.
  intros H.
  apply (H (math, 0, 9, py "$a\ref{b$") (ref, 2, 11, py "\ref{b$c}")).
  - vm_compute. left. reflexivity.
  - vm_compute. right. left. reflexivity.
  - vm_compute. lia.
  - discriminate.
  - vm_compute. right. left. reflexivity.
Qed.

Lemma inline_heading_conversion_example :
  process_content_block Sample.no_unicode Sample.no_unicode Sample.isabs Sample.join
    Sample.relpath Sample.read_file (inline_block (py "### Title")) (py "pages/1")
  = (py "\subsection{Title}" ++ [nl; nl], []).
Proof.
  etransitivity.
  - apply (proj1 (proj2 (proj2
             (inline_heading_conversion Sample.no_unicode Sample.no_unicode Sample.isabs
                Sample.join Sample.relpath Sample.read_file (py "pages/1"))))
             (data (inline_block (py "### Title"))) 3 (py " Title")).
    + lia.
    + reflexivity.
    + reflexivity.
  - vm_compute. reflexivity.
Defined.

Lemma list_conversion_example :
  process_content_block Sample.no_unicode Sample.no_unicode Sample.isabs Sample.join
    Sample.relpath Sample.read_file (external_block (py "list.txt")) (py "pages/1")
  = (py "\begin{itemize}" ++ [nl] ++ py "\item a" ++ [nl] ++ py "\item b" ++ [nl]
     ++ py "\end{itemize}" ++ [nl] ++ py "not a list", [])
  /\ exists before,
       In (py "\begin{itemize}") before
       /\ process_content_block Sample.no_unicode Sample.no_unicode Sample.isabs Sample.join
            Sample.relpath Sample.read_file (external_block (py "list.txt")) (py "pages/1")
          = (PyStr.join [nl]
               (before ++ [py "\item a"; py "\item b"; py "\end{itemize}"; py "not a list"]
                ++ list_lines []), []).
Proof.
  split.
  - apply (proj1 (proj2 (list_conversion Sample.no_unicode Sample.no_unicode Sample.isabs
                    Sample.join Sample.relpath Sample.read_file (py "pages/1")))).
    reflexivity.
  - apply (proj1 (list_conversion Sample.no_unicode Sample.no_unicode Sample.isabs
                    Sample.join Sample.relpath Sample.read_file (py "pages/1"))
             (py "list.txt") [] Sample.list_txt [] []).
    + reflexivity.
    + vm_compute. reflexivity.
Defined.

Lemma non_fatal_degradation_example :
  let no_data := Data None None None None None None None None None in
  process_content_block Sample.no_unicode Sample.no_unicode Sample.isabs Sample.join
    Sample.relpath Sample.read_file (Block (py "text") no_data) (py "pages/1")
  = ([], [(WARNING, py "Text block is missing both 'text' and 'textPath'")])
  /\ process_content_block Sample.no_unicode Sample.no_unicode Sample.isabs Sample.join
       Sample.relpath Sample.read_file (Block (py "video") no_data) (py "pages/1")
     = ([], [(WARNING, py "Unknown content block type: video")])
  /\ fst (write_blocks Sample.no_unicode Sample.no_unicode Sample.isabs Sample.join
            Sample.relpath Sample.read_file
            ([inline_block (py "a")] ++ Block (py "video") no_data :: [inline_block (py "b")])
            (py "pages/1"))
     = py "a" ++ [nl; nl] ++ py "b" ++ [nl; nl].
Proof.
  cbn zeta. split; [|split].
  - apply (proj1 (non_fatal_degradation Sample.no_unicode Sample.no_unicode Sample.isabs
                    Sample.join Sample.relpath Sample.read_file
                    (Block (py "text") (Data None None None None None None None None None))
                    (py "pages/1"))).
    reflexivity.
  - apply (proj1 (proj2 (non_fatal_degradation Sample.no_unicode Sample.no_unicode
                    Sample.isabs Sample.join Sample.relpath Sample.read_file
                    (Block (py "video") (Data None None None None None None None None None))
                    (py "pages/1")))).
    reflexivity.
  - rewrite (proj2 (proj2 (non_fatal_degradation Sample.no_unicode Sample.no_unicode
                    Sample.isabs Sample.join Sample.relpath Sample.read_file
                    (Block (py "video") (Data None None None None None None None None None))
                    (py "pages/1")))).
    + vm_compute. reflexivity.
    + right. reflexivity.
Defined.

(** The lines after the heading line are inside the heading command. *)
Lemma inline_heading_takes_whole_text_example :
  process_content_block Sample.no_unicode Sample.no_unicode Sample.isabs Sample.join
    Sample.relpath Sample.read_file
    (inline_block (py "# Title" ++ [nl] ++ py "body")) (py "pages/1")
  = (py "\chapter{Title" ++ [nl] ++ py "body}" ++ [nl; nl], []).
Proof.
  etransitivity.
  - apply (inline_heading_takes_whole_text Sample.no_unicode Sample.no_unicode Sample.isabs
             Sample.join Sample.relpath Sample.read_file
             (data (inline_block (py "# Title" ++ [nl] ++ py "body")))
             (t := py "# Title" ++ [nl] ++ py "body") (py "pages/1")).
    + reflexivity.
    + reflexivity.
  - vm_compute. reflexivity.
Defined.
